(** * The job lifecycle manager of taipy ([taipy/job/job_manager.py])

    A shallow embedding of [JobManager] and of the collaborators it calls,
    followed by the properties of its operations.  The Python class is a
    stateless facade: every method reads and writes the process state
    (the job repository, the logging sink, the clock that dates the jobs and
    the operating system's random source).  That state is the record
    [World]; a method is a function from the world to an outcome (a value
    or a raised exception) and the world it leaves. *)

From Stdlib Require Import ZArith Ascii String List Lia.
From stdpp Require Import base gmap strings list fin_maps.

Local Open Scope Z_scope.

(** ** Identities, tasks and callbacks *)

(** [JobId = NewType("JobId", str)] in [taipy.common.alias]. *)
Abbreviation JobId := string (only parsing).

(** Modelled from the spec: the class [Task] of [taipy.task.task] is not in
    the sources.  The spec treats a task as "an opaque identifier plus a
    scope-membership predicate" with "a stable identity". *)
Record Task := mkTask { task_id : string }.

#[global] Instance Task_eq_dec : EqDecision Task.
Proof. solve_decision. Defined.

(** A callable given to [create]: an opaque handle. *)
Inductive Callback := Handle (name : string).

(** ** Python's [uuid] module, as far as [create] uses it *)

Module uuid.

(** The alphabet of the [%x] conversion. *)
Definition hex_alphabet : list ascii :=
  list_ascii_of_string "0123456789abcdef".

Definition hex_digit (d : Z) : ascii :=
  nth (Z.to_nat d) hex_alphabet "?"%char.

(** ['%0kx' % n] for [0 <= n < 16^k]: exactly [k] digits, the most
    significant first. *)
Fixpoint hex_pad (k : nat) (n : Z) : list ascii :=
  match k with
  | O => []
  | S k' => hex_pad k' (n / 16) ++ [hex_digit (n mod 16)]
  end.

(** [UUID.__init__(bytes=..., version=4)]: the variant bits are set to
    RFC 4122 and the version nibble to 4.
    <<
      int &= ~(0xc000 << 48)
      int |= 0x8000 << 48
      int &= ~(0xf000 << 64)
      int |= version << 76
    >> *)
Definition set_version4 (int : Z) : Z :=
  let int := Z.land int (Z.lnot (Z.shiftl 0xc000 48)) in
  let int := Z.lor int (Z.shiftl 0x8000 48) in
  let int := Z.land int (Z.lnot (Z.shiftl 0xf000 64)) in
  Z.lor int (Z.shiftl 4 76).

(** [UUID.__str__]:
    <<
      hex = '%032x' % self.int
      return '%s-%s-%s-%s-%s' % (hex[:8], hex[8:12], hex[12:16], hex[16:20], hex[20:])
    >> *)
Definition canonical (hex : list ascii) : list ascii :=
  take 8 hex ++ "-"%char :: take 4 (drop 8 hex) ++ "-"%char ::
  take 4 (drop 12 hex) ++ "-"%char :: take 4 (drop 16 hex) ++ "-"%char ::
  drop 20 hex.

Definition str (int : Z) : string :=
  string_of_list_ascii (canonical (hex_pad 32 int)).

(** Reading the 32 digits back out of the canonical form (used to show
    that [str] loses nothing). *)
Definition digits_of_canonical (s : list ascii) : list ascii :=
  take 8 s ++ take 4 (drop 9 s) ++ take 4 (drop 14 s) ++
  take 4 (drop 19 s) ++ drop 24 s.

End uuid.

(** ** Jobs *)

Inductive Status :=
  | SUBMITTED | BLOCKED | PENDING | RUNNING | COMPLETED | FAILED | CANCELED.

Module Job.

(** Modelled from the spec: the class [Job] of [taipy.job.job] is not in
    the sources.  Section 3 of the spec gives its fields: [id],
    [task_reference] (the constructor's [task] argument), [status],
    a creation sequence value and the ordered [subscribers]. *)
Record t := mk {
  id : JobId;
  task : Task;
  status : Status;
  creation : Z;
  subscribers : list Callback
}.

(** Modelled from the spec: [Job.is_finished] is not in the sources;
    "[is_finished()] is true exactly for the terminal states
    {COMPLETED, FAILED, CANCELED}". *)
Definition is_finished (j : t) : bool :=
  match status j with
  | COMPLETED | FAILED | CANCELED => true
  | SUBMITTED | BLOCKED | PENDING | RUNNING => false
  end.

(** Modelled from the spec: [Job.__contains__] ([task in job]) is not in
    the sources; "a job belongs to a task if its task_reference identifies
    that exact task". *)
Definition contains (j : t) (tk : Task) : bool :=
  bool_decide (task j = tk).

(** Modelled from the spec: the ordering of jobs is not in the sources;
    "jobs are totally ordered by creation order -- a strictly increasing
    sequence number or timestamp assigned at creation". *)
Definition lt (a b : t) : bool := creation a <? creation b.

(** Modelled from the spec: [Job.on_status_change] is not in the sources;
    it "registers each element of callbacks as a status-change subscriber
    on the job", the subscribers being kept "in registration order". *)
Definition on_status_change (j : t) (functions : list Callback) : t :=
  {| id := id j; task := task j; status := status j;
     creation := creation j;
     subscribers := subscribers j ++ functions |}.

End Job.

(** ** The process state and the effects of a method *)

(** The exceptions of [taipy.exceptions] that the manager meets, and the
    built-in [ValueError]. *)
Inductive Exception :=
  | ModelNotFound (model_id : JobId)
  | NonExistingJob (job_id : JobId)
  | JobNotDeletedException (job_id : JobId)
  | ValueError.

(** A record handed to [logging]: the severity of the call and its
    argument, a text for [logging.error(f"...")] and the exception object
    itself for [logging.warning(err)]. *)
Inductive Level := ERROR | WARNING.
Inductive Message := Text (s : string) | Exc (e : Exception).

(** The calls received by the repository, in order. *)
Inductive RepoCall :=
  | CallSave (j : Job.t)
  | CallLoad (job_id : JobId)
  | CallLoadAll
  | CallDelete (job_id : JobId)
  | CallDeleteAll.

Record World := mkWorld {
  records : gmap string Job.t;   (* the persisted job records, by identity *)
  calls : list RepoCall;         (* the repository calls made so far *)
  log : list (Level * Message);  (* what was handed to [logging] *)
  clock : Z;                     (* the next creation sequence value *)
  entropy : nat -> Z;            (* the reads of the random source to come *)
  drawn : nat                    (* how many of them were consumed *)
}.

Inductive Outcome (A : Type) :=
  | Return (a : A)
  | Raise (e : Exception).
Arguments Return {A} a.
Arguments Raise {A} e.

Definition Py (A : Type) : Type := World -> Outcome A * World.

Definition ret {A} (a : A) : Py A := fun w => (Return a, w).

Definition raise {A} (e : Exception) : Py A := fun w => (Raise e, w).

Definition bind {A B} (m : Py A) (k : A -> Py B) : Py B :=
  fun w =>
    match m w with
    | (Return a, w') => k a w'
    | (Raise e, w') => (Raise e, w')
    end.

(** [try: m  except ...: h]: the handler says which exceptions it catches. *)
Definition try_except {A} (m : Py A) (h : Exception -> option (Py A)) : Py A :=
  fun w =>
    match m w with
    | (Return a, w') => (Return a, w')
    | (Raise e, w') =>
        match h e with
        | Some k => k w'
        | None => (Raise e, w')
        end
    end.

Declare Scope py_scope.
Delimit Scope py_scope with py.
Notation "x <- m ;; k" := (bind m (fun x => k))
  (at level 100, m at next level, right associativity) : py_scope.
Notation "m ;;; k" := (bind m (fun _ => k))
  (at level 100, right associativity) : py_scope.
Local Open Scope py_scope.

Definition with_records (f : gmap string Job.t -> gmap string Job.t)
    (c : RepoCall) (w : World) : World :=
  {| records := f (records w); calls := calls w ++ [c]; log := log w;
     clock := clock w; entropy := entropy w; drawn := drawn w |}.

Definition with_log (r : Level * Message) (w : World) : World :=
  {| records := records w; calls := calls w; log := log w ++ [r];
     clock := clock w; entropy := entropy w; drawn := drawn w |}.

Module logging.

Definition error (msg : string) : Py unit :=
  fun w => (Return tt, with_log (ERROR, Text msg) w).

Definition warning (err : Exception) : Py unit :=
  fun w => (Return tt, with_log (WARNING, Exc err) w).

End logging.

(** [int.from_bytes(os.urandom(16))]: the next read of the random source,
    sixteen bytes taken as a number below [2^128]. *)
Definition urandom16 : Py Z :=
  fun w =>
    (Return (entropy w (drawn w) mod 2 ^ 128),
     {| records := records w; calls := calls w; log := log w;
        clock := clock w; entropy := entropy w; drawn := S (drawn w) |}).

(** [uuid.uuid4()] is [UUID(bytes=os.urandom(16), version=4)]. *)
Definition uuid4 : Py Z :=
  r <- urandom16 ;; ret (uuid.set_version4 r).

(** Modelled from the spec: the constructor [Job(id=..., task=...)] is not
    in the sources.  A new job starts in the first lifecycle state, has no
    subscriber yet, and takes the next value of the creation sequence, which
    is "strictly increasing". *)
Definition new_Job (id : JobId) (task : Task) : Py Job.t :=
  fun w =>
    (Return {| Job.id := id; Job.task := task; Job.status := SUBMITTED;
               Job.creation := clock w; Job.subscribers := [] |},
     {| records := records w; calls := calls w; log := log w;
        clock := clock w + 1; entropy := entropy w; drawn := drawn w |}).

(** ** The job repository *)

Module JobRepository.

(** Modelled from the spec: the class [JobRepository] of
    [taipy.job.repository] is not in the sources.  Section 6 of the spec
    gives its contract; [save] is an "upsert by identity". *)
Definition save (job : Job.t) : Py unit :=
  fun w => (Return tt, with_records (insert (Job.id job) job) (CallSave job) w).

(** Modelled from the spec: [load] "fails with a ModelNotFound-equivalent
    condition when absent". *)
Definition load (job_id : JobId) : Py Job.t :=
  fun w =>
    let w' := with_records (fun m => m) (CallLoad job_id) w in
    match records w !! job_id with
    | Some job => (Return job, w')
    | None => (Raise (ModelNotFound job_id), w')
    end.

(** Modelled from the spec: [load_all] "returns the full set; empty
    sequence if none exist", in an order that is the repository's. *)
Definition load_all : Py (list Job.t) :=
  fun w =>
    (Return ((map_to_list (records w)).*2),
     with_records (fun m => m) CallLoadAll w).

(** Modelled from the spec: [delete] "removes the record", and succeeds
    when there is none. *)
Definition delete (job_id : JobId) : Py unit :=
  fun w =>
    (Return tt, with_records (base.delete job_id) (CallDelete job_id) w).

(** Modelled from the spec: [delete_all] "removes every record". *)
Definition delete_all : Py unit :=
  fun w => (Return tt, with_records (fun _ => ∅) CallDeleteAll w).

End JobRepository.

(** ** Python's [max] and [filter] *)

(** [max(iterable)] keeps the first item and replaces it by each later item
    that compares greater ([item > maxitem], which for jobs is
    [maxitem < item]); an empty iterable raises [ValueError]. *)
Fixpoint max_from (maxitem : Job.t) (items : list Job.t) : Job.t :=
  match items with
  | [] => maxitem
  | item :: rest =>
      max_from (if Job.lt maxitem item then item else maxitem) rest
  end.

Definition py_max (items : list Job.t) : Py Job.t :=
  match items with
  | [] => raise ValueError
  | item :: rest => ret (max_from item rest)
  end.

(** ** The job manager *)

Module JobManager.

(** <<
      def set(cls, job):
          cls.repository.save(job)
    >> *)
Definition set (job : Job.t) : Py unit :=
  JobRepository.save job.

(** <<
      def create(cls, task, callbacks):
          job = Job(id=JobId(f"JOB_{uuid.uuid4()}"), task=task)
          cls.set(job)
          job.on_status_change( *callbacks)
          return job
    >>
    The repository keeps a record of the job as it is when [save] is
    called; the subscribers are added afterwards to the object that
    [create] returns. *)
Definition create (task : Task) (callbacks : list Callback) : Py Job.t :=
  u <- uuid4 ;;
  job <- new_Job ("JOB_" +:+ uuid.str u) task ;;
  set job ;;;
  let job := Job.on_status_change job callbacks in
  ret job.

(** <<
      def get(cls, job_id):
          try:
              return cls.repository.load(job_id)
          except ModelNotFound:
              logging.error(f"Job: {job_id} does not exist.")
              raise NonExistingJob(job_id)
    >> *)
Definition get (job_id : JobId) : Py Job.t :=
  try_except (JobRepository.load job_id)
    (fun e =>
       match e with
       | ModelNotFound _ =>
           Some (logging.error ("Job: " +:+ job_id +:+ " does not exist.") ;;;
                 raise (NonExistingJob job_id))
       | _ => None
       end).

(** <<
      def get_all(cls):
          return cls.repository.load_all()
    >> *)
Definition get_all : Py (list Job.t) :=
  JobRepository.load_all.

(** <<
      def delete(cls, job, force=False):
          if job.is_finished() or force:
              cls.repository.delete(job.id)
          else:
              err = JobNotDeletedException(job.id)
              logging.warning(err)
              raise err
    >> *)
Definition delete (job : Job.t) (force : bool) : Py unit :=
  if Job.is_finished job || force then
    JobRepository.delete (Job.id job)
  else
    let err := JobNotDeletedException (Job.id job) in
    logging.warning err ;;;
    raise err.

(** <<
      def delete_all(cls):
          cls.repository.delete_all()
    >> *)
Definition delete_all : Py unit :=
  JobRepository.delete_all.

(** <<
      def get_latest_job(cls, task):
          return max(filter(lambda job: task in job, cls.get_all()))
    >> *)
Definition get_latest_job (task : Task) : Py Job.t :=
  jobs <- get_all ;;
  py_max (List.filter (fun job => Job.contains job task) jobs).

End JobManager.

(** ** Sequences of calls to the manager *)

(** One call of a client to the manager. *)
Inductive Call :=
  | Create (task : Task) (callbacks : list Callback)
  | Set_ (job : Job.t)
  | Get (job_id : JobId)
  | GetAll
  | Delete (job : Job.t) (force : bool)
  | DeleteAll
  | GetLatestJob (task : Task).

(** The world after a call, whatever its outcome, and the job it created
    if it is a [create]. *)
Definition run_call (c : Call) (w : World) : list Job.t * World :=
  match c with
  | Create task callbacks =>
      match JobManager.create task callbacks w with
      | (Return job, w') => ([job], w')
      | (Raise _, w') => ([], w')
      end
  | Set_ job => ([], snd (JobManager.set job w))
  | Get job_id => ([], snd (JobManager.get job_id w))
  | GetAll => ([], snd (JobManager.get_all w))
  | Delete job force => ([], snd (JobManager.delete job force w))
  | DeleteAll => ([], snd (JobManager.delete_all w))
  | GetLatestJob task => ([], snd (JobManager.get_latest_job task w))
  end.

(** The jobs returned by the [create] calls of a sequence, in order. *)
Fixpoint run (cs : list Call) (w : World) : list Job.t * World :=
  match cs with
  | [] => ([], w)
  | c :: cs' =>
      let '(created, w') := run_call c w in
      let '(later, w'') := run cs' w' in
      (created ++ later, w'')
  end.

Definition is_create (c : Call) : bool :=
  match c with Create _ _ => true | _ => false end.

(** The identifiers that [uuid4] produces on the next [n] reads of the
    random source. *)
Definition uuids_to_come (w : World) (n : nat) : list Z :=
  (fun k => uuid.set_version4 (entropy w k mod 2 ^ 128)) <$> seq (drawn w) n.

(** A world for examples: nothing persisted, and a random source whose
    [k]-th read is [2^64 * (k + 1)]. *)
Definition empty_world : World :=
  {| records := ∅; calls := []; log := []; clock := 0;
     entropy := fun k => 2 ^ 64 * (Z.of_nat k + 1); drawn := O |}.

(** A task with two jobs, the first still running and the second, created
    later, completed, and the world where both are persisted. *)
Definition task_a : Task := mkTask "a".

Definition job_1 : Job.t :=
  {| Job.id := "JOB_1"; Job.task := task_a; Job.status := RUNNING;
     Job.creation := 1; Job.subscribers := [] |}.

Definition job_2 : Job.t :=
  {| Job.id := "JOB_2"; Job.task := task_a; Job.status := COMPLETED;
     Job.creation := 2; Job.subscribers := [] |}.

Definition world_12 : World :=
  snd (JobManager.set job_2 (snd (JobManager.set job_1 empty_world))).

(** The object that the execution engine holds for the first job once it
    has marked it failed, before it persists the change. *)
Definition job_1_failed : Job.t :=
  {| Job.id := "JOB_1"; Job.task := task_a; Job.status := FAILED;
     Job.creation := 1; Job.subscribers := [] |}.

(** Two jobs created for the same task in the empty world, and the object
    that the execution engine holds for the second once it has completed. *)
Definition created_once : Outcome Job.t * World :=
  JobManager.create task_a [Handle "first"] empty_world.

Definition created_twice : Outcome Job.t * World :=
  JobManager.create task_a [Handle "second"] (snd created_once).

Definition second_completed : Job.t :=
  {| Job.id := "JOB_00000000-0000-4002-8000-000000000000";
     Job.task := task_a; Job.status := COMPLETED; Job.creation := 1;
     Job.subscribers := [Handle "second"] |}.

(** ** Notions used for sequences of calls *)

(** The calls that only query the manager. *)
Definition is_query (c : Call) : bool :=
  match c with
  | Get _ | GetAll | GetLatestJob _ => true
  | _ => false
  end.

(** Every record is kept under the identity of its job. *)
Definition keyed_by_id (w : World) : Prop :=
  ∀ i job, records w !! i = Some job → Job.id job = i.

(** What the manager hands to [logging] when [get] misses a job, and when
    [delete] refuses one. *)
Definition missing_record (job_id : JobId) : Level * Message :=
  (ERROR, Text ("Job: " +:+ job_id +:+ " does not exist.")).

Definition refused_record (job : Job.t) : Level * Message :=
  (WARNING, Exc (JobNotDeletedException (Job.id job))).

(** A third job of [task_a], created at the same instant as [job_2], and
    the world where the three are persisted. *)
Definition job_3 : Job.t :=
  {| Job.id := "JOB_3"; Job.task := task_a; Job.status := PENDING;
     Job.creation := 2; Job.subscribers := [] |}.

Definition world_123 : World := snd (JobManager.set job_3 world_12).

(** * Properties *)

(** ** The identifiers *)

Lemma below_pow2_land (n x : Z) :
  0 <= n -> (0 <= x < 2 ^ n <-> Z.land x (Z.ones n) = x).
Proof.
  intros Hn. rewrite Z.land_ones by assumption. split.
  - intros H. apply Z.mod_small. assumption.
  - intros H. rewrite <- H. apply Z.mod_pos_bound. apply Z.pow_pos_nonneg; lia.
Qed.

Lemma land_keeps_below (n x c : Z) :
  Z.land x (Z.ones n) = x -> Z.land (Z.land x c) (Z.ones n) = Z.land x c.
Proof.
  intros H. rewrite <- Z.land_assoc, (Z.land_comm c), Z.land_assoc, H.
  reflexivity.
Qed.

Lemma lor_keeps_below (n x c : Z) :
  Z.land x (Z.ones n) = x -> Z.land c (Z.ones n) = c ->
  Z.land (Z.lor x c) (Z.ones n) = Z.lor x c.
Proof. intros Hx Hc. rewrite Z.land_lor_distr_l, Hx, Hc. reflexivity. Qed.

Lemma set_version4_range (r : Z) :
  0 <= r < 2 ^ 128 -> 0 <= uuid.set_version4 r < 2 ^ 128.
Proof.
  intros Hr. apply (below_pow2_land 128) in Hr; [|lia].
  apply (below_pow2_land 128); [lia|].
  unfold uuid.set_version4.
  apply lor_keeps_below; [|reflexivity].
  apply land_keeps_below.
  apply lor_keeps_below; [|reflexivity].
  apply land_keeps_below. exact Hr.
Qed.

(** Six bits of the read are overwritten: reads that differ only there give
    the same UUID, so it is the UUIDs, not the reads, that must differ. *)
Example set_version4_forgets_six_bits :
  uuid.set_version4 0 = uuid.set_version4 (2 ^ 62) ∧
  uuid.set_version4 0 = uuid.set_version4 (2 ^ 79).
Proof. split; reflexivity. Qed.

Lemma hex_digit_inj (a b : Z) :
  0 <= a < 16 -> 0 <= b < 16 ->
  uuid.hex_digit a = uuid.hex_digit b -> a = b.
Proof.
  intros Ha Hb H. unfold uuid.hex_digit in H.
  assert (Hnd : NoDup uuid.hex_alphabet) by compute_done.
  apply NoDup_ListNoDup in Hnd.
  apply (proj1 (List.NoDup_nth _ "?"%char) Hnd) in H.
  - lia.
  - change (length uuid.hex_alphabet) with 16%nat. lia.
  - change (length uuid.hex_alphabet) with 16%nat. lia.
Qed.

Lemma hex_pad_length (k : nat) (n : Z) : length (uuid.hex_pad k n) = k.
Proof.
  revert n. induction k as [|k IH]; intros n; simpl.
  - reflexivity.
  - rewrite length_app, IH. simpl. lia.
Qed.

Lemma hex_pad_inj (k : nat) (a b : Z) :
  0 <= a < 16 ^ Z.of_nat k -> 0 <= b < 16 ^ Z.of_nat k ->
  uuid.hex_pad k a = uuid.hex_pad k b -> a = b.
Proof.
  revert a b. induction k as [|k IH]; intros a b Ha Hb H.
  - simpl in Ha, Hb. lia.
  - simpl in H. apply app_inj_tail in H. destruct H as [Hhi Hlo].
    rewrite Nat2Z.inj_succ, Z.pow_succ_r in Ha, Hb by lia.
    assert (Hq : a / 16 = b / 16).
    { apply IH; [split | split | exact Hhi].
      - apply Z.div_pos; lia.
      - apply Z.div_lt_upper_bound; lia.
      - apply Z.div_pos; lia.
      - apply Z.div_lt_upper_bound; lia. }
    assert (Hm : a mod 16 = b mod 16).
    { apply hex_digit_inj; [apply Z.mod_pos_bound; lia .. | exact Hlo]. }
    rewrite (Z.div_mod a 16), (Z.div_mod b 16) by lia. congruence.
Qed.

(** A list known to have 32 elements, spelled out. *)
Ltac spell_32 hex H :=
  do 32 (destruct hex as [|? hex]; [simpl in H; lia|]);
  destruct hex; [|simpl in H; lia].

Lemma digits_of_canonical_canonical (hex : list ascii) :
  length hex = 32%nat ->
  uuid.digits_of_canonical (uuid.canonical hex) = hex.
Proof. intros H. spell_32 hex H. reflexivity. Qed.

Lemma uuid_str_inj (a b : Z) :
  0 <= a < 2 ^ 128 -> 0 <= b < 2 ^ 128 -> uuid.str a = uuid.str b -> a = b.
Proof.
  intros Ha Hb H. unfold uuid.str in H.
  apply (f_equal list_ascii_of_string) in H.
  rewrite !list_ascii_of_string_of_list_ascii in H.
  apply (f_equal uuid.digits_of_canonical) in H.
  rewrite !digits_of_canonical_canonical in H by apply hex_pad_length.
  apply (hex_pad_inj 32); assumption.
Qed.

(** The identity that [create] gives to the job made from a read [r] of
    the random source. *)
Lemma job_id_inj (a b : Z) :
  0 <= a < 2 ^ 128 -> 0 <= b < 2 ^ 128 ->
  "JOB_" +:+ uuid.str a = "JOB_" +:+ uuid.str b -> a = b.
Proof.
  intros Ha Hb H. apply uuid_str_inj; [assumption .. |].
  exact (String.app_inj "JOB_" _ _ H).
Qed.

Lemma uuid_str_length (a : Z) : String.length (uuid.str a) = 36%nat.
Proof.
  unfold uuid.str. pose proof (hex_pad_length 32 a) as H.
  generalize dependent (uuid.hex_pad 32 a). intros hex H.
  spell_32 hex H. reflexivity.
Qed.

(** ** Python's [max] on jobs *)

Lemma max_from_greatest (maxitem : Job.t) (items : list Job.t) :
  max_from maxitem items ∈ maxitem :: items ∧
  ∀ x, x ∈ maxitem :: items →
       Job.creation x <= Job.creation (max_from maxitem items).
Proof.
  revert maxitem. induction items as [|item rest IH]; intros maxitem; simpl.
  - split; [apply list_elem_of_here|]. intros x Hx.
    apply list_elem_of_singleton in Hx. subst. lia.
  - destruct (IH (if Job.lt maxitem item then item else maxitem)) as [Hin Hge].
    split.
    + apply elem_of_cons in Hin. rewrite !elem_of_cons.
      destruct Hin as [->|Hin]; [|auto].
      destruct (Job.lt maxitem item); auto.
    + intros x Hx.
      assert (Hstep : Job.creation maxitem <=
                Job.creation (if Job.lt maxitem item then item else maxitem) ∧
              Job.creation item <=
                Job.creation (if Job.lt maxitem item then item else maxitem)).
      { unfold Job.lt. destruct (Z.ltb_spec (Job.creation maxitem)
                                   (Job.creation item)); lia. }
      destruct Hstep as [Hm Hi].
      pose proof (Hge _ (list_elem_of_here _ _)) as Hcur.
      apply elem_of_cons in Hx. destruct Hx as [->|Hx]; [lia|].
      apply elem_of_cons in Hx. destruct Hx as [->|Hx]; [lia|].
      apply Hge. apply elem_of_cons. right. exact Hx.
Qed.

(** A job that is newer than every other candidate is the maximum. *)
Lemma max_from_newest (r maxitem : Job.t) (items : list Job.t) :
  r ∈ maxitem :: items →
  (∀ x, x ∈ maxitem :: items →
        x = r ∨ Job.creation x < Job.creation r) →
  max_from maxitem items = r.
Proof.
  intros Hr Hothers.
  destruct (max_from_greatest maxitem items) as [Hin Hge].
  destruct (Hothers _ Hin) as [Heq|Hlt]; [exact Heq|].
  specialize (Hge _ Hr). lia.
Qed.

(** ** The candidates of [get_latest_job] *)

Lemma get_latest_job_unfold (task : Task) (w : World) :
  JobManager.get_latest_job task w =
  py_max (List.filter (fun job => Job.contains job task)
            ((map_to_list (records w)).*2))
    (with_records (fun m => m) CallLoadAll w).
Proof. reflexivity. Qed.

Lemma candidate_iff (task : Task) (m : gmap string Job.t) (x : Job.t) :
  x ∈ List.filter (fun job => Job.contains job task) ((map_to_list m).*2) ↔
  (∃ i, m !! i = Some x) ∧ Job.contains x task = true.
Proof.
  rewrite list_elem_of_In, List.filter_In, <- list_elem_of_In.
  rewrite list_elem_of_fmap. split.
  - intros [[[i y] [-> Hin]] Hc]. apply elem_of_map_to_list in Hin.
    split; [exists i; exact Hin | exact Hc].
  - intros [[i Hi] Hc]. split; [|exact Hc].
    exists (i, x). split; [reflexivity|]. apply elem_of_map_to_list. exact Hi.
Qed.

Lemma py_max_cons_inv (items : list Job.t) (x : Job.t) :
  x ∈ items → ∃ first rest, items = first :: rest.
Proof.
  destruct items as [|a l]; [|eauto].
  intros H. apply elem_of_nil in H. destruct H.
Qed.

(** The latest job, when one candidate is newer than all the others. *)
Lemma get_latest_job_newest (task : Task) (w : World) (i : string) (r : Job.t) :
  records w !! i = Some r →
  Job.contains r task = true →
  (∀ k x, records w !! k = Some x → Job.contains x task = true →
          x = r ∨ Job.creation x < Job.creation r) →
  JobManager.get_latest_job task w =
  (Return r, with_records (fun m => m) CallLoadAll w).
Proof.
  intros Hi Hc Hothers. rewrite get_latest_job_unfold.
  assert (Hr : r ∈ List.filter (fun job => Job.contains job task)
                 ((map_to_list (records w)).*2)).
  { apply candidate_iff. eauto. }
  destruct (py_max_cons_inv _ _ Hr) as (first & rest & E).
  rewrite E in *. simpl. unfold ret. f_equal. f_equal.
  apply max_from_newest; [exact Hr|].
  intros x Hx. rewrite <- E in Hx. apply candidate_iff in Hx.
  destruct Hx as [[k Hk] Hxc]. eauto.
Qed.

(** ** The operations of the manager *)

(** C7: [create] makes a job whose identifier is "JOB_" followed by the
    canonical form (36 characters) of a freshly drawn version-4 UUID, a
    number below [2^128]; it writes the job to the repository once, as it is
    before any subscriber is registered, makes no other repository call and
    logs nothing; it then registers the callbacks, in order, on the job that
    it returns. *)
Theorem create_persists_then_registers
    (task : Task) (callbacks : list Callback) (w : World) :
  let u := uuid.set_version4 (entropy w (drawn w) mod 2 ^ 128) in
  let fresh :=
    {| Job.id := "JOB_" +:+ uuid.str u; Job.task := task;
       Job.status := SUBMITTED; Job.creation := clock w;
       Job.subscribers := [] |} in
  let job := Job.on_status_change fresh callbacks in
  JobManager.create task callbacks w =
    (Return job,
     {| records := <[Job.id fresh := fresh]> (records w);
        calls := calls w ++ [CallSave fresh];
        log := log w; clock := clock w + 1;
        entropy := entropy w; drawn := S (drawn w) |}) ∧
  0 <= u < 2 ^ 128 ∧
  String.length (uuid.str u) = 36%nat ∧
  Job.id job = "JOB_" +:+ uuid.str u ∧
  Job.task job = task ∧
  Job.subscribers job = callbacks.
Proof.
  intros u fresh job.
  split; [reflexivity|].
  split; [apply set_version4_range, Z.mod_pos_bound; lia|].
  split; [apply uuid_str_length|].
  split; [reflexivity|]. split; reflexivity.
Qed.

(** C5: after [set(j)], [get(j.id)] returns [j], field for field. *)
Theorem set_get_round_trip (job : Job.t) (w : World) :
  fst (JobManager.set job w) = Return tt ∧
  fst (JobManager.get (Job.id job) (snd (JobManager.set job w))) = Return job.
Proof.
  split; [reflexivity|].
  unfold JobManager.get, try_except, JobRepository.load, JobManager.set,
    JobRepository.save. simpl.
  rewrite lookup_insert_eq. reflexivity.
Qed.

(** C6: [get(job_id)] returns the record that the repository loads when
    there is one; it raises [NonExistingJob] exactly when the repository
    raises [ModelNotFound], that is when no record has this identity, and
    the world it leaves then holds the message logged at error severity. *)
Theorem get_missing_job (job_id : JobId) (w : World) :
  let loaded := with_records (fun m => m) (CallLoad job_id) w in
  match records w !! job_id with
  | Some job => JobManager.get job_id w = (Return job, loaded)
  | None =>
      JobManager.get job_id w =
      (Raise (NonExistingJob job_id),
       with_log (ERROR, Text ("Job: " +:+ job_id +:+ " does not exist."))
         loaded)
  end ∧
  (fst (JobManager.get job_id w) = Raise (NonExistingJob job_id) ↔
   fst (JobRepository.load job_id w) = Raise (ModelNotFound job_id)) ∧
  (fst (JobManager.get job_id w) = Raise (NonExistingJob job_id) ↔
   records w !! job_id = None).
Proof.
  intros loaded.
  unfold JobManager.get, try_except, JobRepository.load.
  destruct (records w !! job_id) as [job|] eqn:E; simpl.
  - repeat split; intros H; discriminate H.
  - repeat split; reflexivity.
Qed.

(** C8: [delete_all] removes every record without reading any of them (its
    only repository call is the bulk deletion, and it cannot raise);
    afterwards [get_all] returns the empty sequence. *)
Theorem delete_all_empties (w : World) :
  JobManager.delete_all w =
    (Return tt, with_records (fun _ => ∅) CallDeleteAll w) ∧
  records (snd (JobManager.delete_all w)) = ∅ ∧
  fst (JobManager.get_all (snd (JobManager.delete_all w))) = Return [] ∧
  ∀ job_id,
    fst (JobManager.get job_id (snd (JobManager.delete_all w))) =
    Raise (NonExistingJob job_id).
Proof.
  split; [reflexivity|]. split; [reflexivity|].
  split; [|intros job_id; reflexivity].
  unfold JobManager.get_all, JobRepository.load_all. simpl.
  rewrite map_to_list_empty. reflexivity.
Qed.

(** C9: when no persisted job is for the task, [get_latest_job] raises the
    [ValueError] of [max] on an empty sequence, which is neither of the
    manager's own exceptions. *)
Theorem get_latest_job_without_job (task : Task) (w : World) :
  (∀ i job, records w !! i = Some job → Job.contains job task = false) →
  JobManager.get_latest_job task w =
    (Raise ValueError, with_records (fun m => m) CallLoadAll w) ∧
  (∀ job_id, ValueError ≠ NonExistingJob job_id ∧
             ValueError ≠ JobNotDeletedException job_id).
Proof.
  intros Hnone. split; [|intros job_id; split; discriminate].
  rewrite get_latest_job_unfold.
  destruct (List.filter _ _) as [|first rest] eqn:E; [reflexivity|].
  assert (Hin : first ∈ List.filter (fun job => Job.contains job task)
                  ((map_to_list (records w)).*2)).
  { rewrite E. apply list_elem_of_here. }
  apply candidate_iff in Hin. destruct Hin as [[i Hi] Hc].
  rewrite (Hnone _ _ Hi) in Hc. discriminate Hc.
Qed.

Lemma get_latest_job_without_job_witness :
  JobManager.get_latest_job (mkTask "t") empty_world =
    (Raise ValueError, with_records (fun m => m) CallLoadAll empty_world).
Proof.
  apply (get_latest_job_without_job (mkTask "t") empty_world).
  intros i job H. simpl in H. rewrite lookup_empty in H. discriminate H.
Defined.

(** C2: when some persisted job is for the task, [get_latest_job] returns a
    persisted job that is for the task and that no persisted job for the
    task is greater than. *)
Theorem get_latest_job_greatest (task : Task) (w : World) :
  (∃ i job, records w !! i = Some job ∧ Job.contains job task = true) →
  ∃ latest,
    JobManager.get_latest_job task w =
      (Return latest, with_records (fun m => m) CallLoadAll w) ∧
    (∃ i, records w !! i = Some latest) ∧
    Job.contains latest task = true ∧
    ∀ i job, records w !! i = Some job → Job.contains job task = true →
             Job.lt latest job = false.
Proof.
  intros (i & job & Hi & Hc). rewrite get_latest_job_unfold.
  assert (Hin : job ∈ List.filter (fun job => Job.contains job task)
                  ((map_to_list (records w)).*2)).
  { apply candidate_iff. eauto. }
  destruct (py_max_cons_inv _ _ Hin) as (first & rest & E).
  destruct (max_from_greatest first rest) as [Hmax Hge].
  rewrite <- E in Hmax. apply candidate_iff in Hmax.
  destruct Hmax as [Hrec Hfor].
  exists (max_from first rest). rewrite E. simpl. unfold ret.
  repeat split; [exact Hrec | exact Hfor |].
  intros k x Hk Hx. unfold Job.lt. apply Z.ltb_ge. apply Hge.
  rewrite <- E. apply candidate_iff. eauto.
Qed.

Lemma get_latest_job_greatest_witness :
  ∃ latest, fst (JobManager.get_latest_job task_a world_12) = Return latest.
Proof.
  destruct (get_latest_job_greatest task_a world_12) as (latest & E & _).
  - exists "JOB_1", job_1. split; reflexivity.
  - exists latest. rewrite E. reflexivity.
Defined.

(** C1: for a job that has a persisted record, [delete] without [force]
    removes the record when [is_finished()] holds of the job, and only then;
    otherwise it raises [JobNotDeletedException] after logging it as a
    warning, without calling the repository, so that the records are as
    before and [get] still returns the record.  With [force] the record is
    removed whatever the status. *)
Theorem delete_gating (job persisted : Job.t) (w : World) :
  records w !! Job.id job = Some persisted →
  let removed :=
    with_records (base.delete (Job.id job)) (CallDelete (Job.id job)) w in
  let err := JobNotDeletedException (Job.id job) in
  JobManager.delete job false w =
    (if Job.is_finished job then (Return tt, removed)
     else (Raise err, with_log (WARNING, Exc err) w)) ∧
  (records (snd (JobManager.delete job false w)) !! Job.id job = None ↔
   Job.is_finished job = true) ∧
  (Job.is_finished job = false →
   records (snd (JobManager.delete job false w)) = records w ∧
   calls (snd (JobManager.delete job false w)) = calls w ∧
   fst (JobManager.get (Job.id job) (snd (JobManager.delete job false w))) =
     Return persisted) ∧
  JobManager.delete job true w = (Return tt, removed) ∧
  records removed !! Job.id job = None.
Proof.
  intros Hrec removed err. unfold JobManager.delete.
  destruct (Job.is_finished job) eqn:Hfin; simpl.
  - split; [reflexivity|]. split.
    { split; [reflexivity|]. intros _. apply lookup_delete_eq. }
    split; [intros H; discriminate H|].
    split; [reflexivity | apply lookup_delete_eq].
  - split; [reflexivity|]. split.
    { rewrite Hrec. split; intros H; discriminate H. }
    split.
    { intros _. split; [reflexivity|]. split; [reflexivity|].
      unfold JobManager.get, try_except, JobRepository.load. simpl.
      rewrite Hrec. reflexivity. }
    split; [reflexivity | apply lookup_delete_eq].
Qed.

Lemma delete_gating_witness :
  records world_12 !! Job.id job_1 = Some job_1 ∧
  JobManager.delete job_1 false world_12 =
    (Raise (JobNotDeletedException "JOB_1"),
     with_log (WARNING, Exc (JobNotDeletedException "JOB_1")) world_12) ∧
  fst (JobManager.delete job_2 false world_12) = Return tt.
Proof.
  split; [reflexivity|]. split.
  - exact (proj1 (delete_gating job_1 job_1 world_12 eq_refl)).
  - reflexivity.
Defined.

(** C10: [delete] without [force] is decided by [is_finished()] of the
    object it is given and never loads the persisted record: its outcome is
    the same in every world, and when the record kept under that identity
    has another status than the object, it is the object's status that
    removes the record or keeps it. *)
Theorem delete_trusts_its_argument (job persisted : Job.t) (w : World) :
  records w !! Job.id job = Some persisted →
  fst (JobManager.delete job false w) =
    (if Job.is_finished job then Return tt
     else Raise (JobNotDeletedException (Job.id job))) ∧
  records (snd (JobManager.delete job false w)) !! Job.id job =
    (if Job.is_finished job then None else Some persisted) ∧
  calls (snd (JobManager.delete job false w)) =
    calls w ++
    (if Job.is_finished job then [CallDelete (Job.id job)] else []) ∧
  ∀ w', fst (JobManager.delete job false w') =
        fst (JobManager.delete job false w).
Proof.
  intros Hrec. unfold JobManager.delete.
  destruct (Job.is_finished job); simpl.
  - split; [reflexivity|]. split; [apply lookup_delete_eq|].
    split; reflexivity.
  - split; [reflexivity|]. split; [exact Hrec|].
    split; [symmetry; apply app_nil_r | reflexivity].
Qed.

Lemma delete_trusts_its_argument_witness :
  (records world_12 !! "JOB_1" = Some job_1 ∧
   Job.is_finished job_1 = false ∧ Job.is_finished job_1_failed = true ∧
   fst (JobManager.delete job_1_failed false world_12) = Return tt ∧
   records (snd (JobManager.delete job_1_failed false world_12)) !! "JOB_1" =
     None).
Proof.
  split; [reflexivity|]. split; [reflexivity|]. split; [reflexivity|].
  pose proof (delete_trusts_its_argument job_1_failed job_1 world_12 eq_refl)
    as (Hout & Hrec & _).
  split; [exact Hout | exact Hrec].
Defined.

(** ** Sequences of calls: identities *)

Lemma create_unfold (task : Task) (callbacks : list Callback) (w : World) :
  let fresh :=
    {| Job.id := "JOB_" +:+
         uuid.str (uuid.set_version4 (entropy w (drawn w) mod 2 ^ 128));
       Job.task := task; Job.status := SUBMITTED; Job.creation := clock w;
       Job.subscribers := [] |} in
  JobManager.create task callbacks w =
    (Return (Job.on_status_change fresh callbacks),
     {| records := <[Job.id fresh := fresh]> (records w);
        calls := calls w ++ [CallSave fresh];
        log := log w; clock := clock w + 1;
        entropy := entropy w; drawn := S (drawn w) |}).
Proof. reflexivity. Qed.

Lemma uuids_to_come_app (w w' : World) (a b : nat) :
  entropy w' = entropy w → drawn w' = (drawn w + a)%nat →
  uuids_to_come w (a + b) = uuids_to_come w a ++ uuids_to_come w' b.
Proof.
  intros He Hd. unfold uuids_to_come.
  rewrite seq_app, fmap_app, He, Hd. reflexivity.
Qed.

Lemma uuids_to_come_range (w : World) (n : nat) (u : Z) :
  u ∈ uuids_to_come w n → 0 <= u < 2 ^ 128.
Proof.
  unfold uuids_to_come. intros H. apply list_elem_of_fmap in H.
  destruct H as (k & -> & _).
  apply set_version4_range, Z.mod_pos_bound. lia.
Qed.

(** What one call does to the random source, and the identity of the job
    it creates. *)
Lemma run_call_effect (c : Call) (w : World) :
  let n := if is_create c then 1%nat else 0%nat in
  entropy (snd (run_call c w)) = entropy w ∧
  drawn (snd (run_call c w)) = (drawn w + n)%nat ∧
  Job.id <$> fst (run_call c w) =
    (λ u, "JOB_" +:+ uuid.str u) <$> uuids_to_come w n.
Proof.
  destruct c as [task callbacks|job|job_id| |job force| |task]; simpl.
  - rewrite Nat.add_1_r. repeat split.
  - rewrite Nat.add_0_r. repeat split.
  - rewrite Nat.add_0_r.
    unfold JobManager.get, try_except, JobRepository.load.
    destruct (records w !! job_id); repeat split.
  - rewrite Nat.add_0_r. repeat split.
  - rewrite Nat.add_0_r. unfold JobManager.delete.
    destruct (Job.is_finished job || force); repeat split.
  - rewrite Nat.add_0_r. repeat split.
  - rewrite Nat.add_0_r, get_latest_job_unfold.
    destruct (List.filter _ _); repeat split.
Qed.

Lemma run_cons (c : Call) (cs : list Call) (w : World) :
  fst (run (c :: cs) w) =
  fst (run_call c w) ++ fst (run cs (snd (run_call c w))).
Proof.
  simpl. destruct (run_call c w) as [created w'].
  simpl. destruct (run cs w') as [later w'']. reflexivity.
Qed.

Lemma run_ids (cs : list Call) (w : World) :
  Job.id <$> fst (run cs w) =
  (λ u, "JOB_" +:+ uuid.str u) <$>
    uuids_to_come w (length (List.filter is_create cs)).
Proof.
  revert w. induction cs as [|c cs IH]; intros w; [reflexivity|].
  destruct (run_call_effect c w) as (He & Hd & Hids).
  set (n := if is_create c then 1%nat else 0%nat) in *.
  assert (Hlen : length (List.filter is_create (c :: cs)) =
                 (n + length (List.filter is_create cs))%nat).
  { simpl. subst n. destruct (is_create c); reflexivity. }
  rewrite Hlen, (uuids_to_come_app w _ n _ He Hd), run_cons, !fmap_app.
  rewrite Hids, IH. reflexivity.
Qed.

(** C4: in every sequence of calls to the manager, whatever the other
    operations do in between, the jobs returned by [create] have pairwise
    distinct identities, as long as the version-4 UUIDs drawn for them are
    distinct (the collision that the spec treats as of probability zero). *)
Theorem created_jobs_have_distinct_ids (cs : list Call) (w : World) :
  NoDup (uuids_to_come w (length (List.filter is_create cs))) →
  NoDup (Job.id <$> fst (run cs w)).
Proof.
  intros Hnd. rewrite run_ids.
  apply NoDup_fmap_2_strong; [|exact Hnd].
  intros a b Ha Hb H.
  apply job_id_inj; [eapply uuids_to_come_range; eassumption .. | exact H].
Qed.

Lemma created_jobs_have_distinct_ids_witness :
  NoDup (Job.id <$>
    fst (run [Create task_a [Handle "notify"]; Set_ job_1;
              Create task_a []; Delete job_1 true; DeleteAll;
              Create (mkTask "b") []] world_12)).
Proof.
  apply created_jobs_have_distinct_ids. vm_compute. compute_done.
Defined.

(** ** The latest job of a task *)

Lemma two_uuids_distinct_ids (w : World) :
  NoDup (uuids_to_come w 2) →
  "JOB_" +:+ uuid.str (uuid.set_version4 (entropy w (drawn w) mod 2 ^ 128)) ≠
  "JOB_" +:+
    uuid.str (uuid.set_version4 (entropy w (S (drawn w)) mod 2 ^ 128)).
Proof.
  intros Hnd Heq. apply job_id_inj in Heq;
    [|apply set_version4_range, Z.mod_pos_bound; lia ..].
  unfold uuids_to_come in Hnd. simpl in Hnd.
  apply NoDup_cons in Hnd. destruct Hnd as [Hnotin _].
  apply Hnotin. rewrite Heq. apply list_elem_of_here.
Qed.

(** C3: for jobs [j1] and [j2] of a task with distinct identities, [j1]
    created before [j2], and a repository whose other jobs for the task are
    older than [j1]: once both are persisted [get_latest_job] returns [j2],
    and once the record of [j2] is deleted it returns [j1]. *)
Theorem latest_job_follows_creation
    (task : Task) (j1 j2 : Job.t) (w : World) :
  Job.contains j1 task = true →
  Job.contains j2 task = true →
  Job.lt j1 j2 = true →
  Job.id j1 ≠ Job.id j2 →
  (∀ i job, records w !! i = Some job → Job.contains job task = true →
            i = Job.id j1 ∨ i = Job.id j2 ∨ Job.lt job j1 = true) →
  let w2 := snd (JobManager.set j2 (snd (JobManager.set j1 w))) in
  fst (JobManager.get_latest_job task w2) = Return j2 ∧
  ∀ (held : Job.t) (force : bool) (w3 : World),
    Job.id held = Job.id j2 →
    JobManager.delete held force w2 = (Return tt, w3) →
    fst (JobManager.get_latest_job task w3) = Return j1.
Proof.
  intros Hfor1 Hfor2 Hlt Hne Hother w2.
  unfold Job.lt in Hlt, Hother. apply Z.ltb_lt in Hlt.
  assert (Hrecs : records w2 =
            <[Job.id j2:=j2]> (<[Job.id j1:=j1]> (records w)))
    by reflexivity.
  split.
  - rewrite (get_latest_job_newest task w2 (Job.id j2) j2); [reflexivity | | |].
    + rewrite Hrecs. apply lookup_insert_eq.
    + exact Hfor2.
    + rewrite Hrecs. intros k x Hk Hx.
      apply lookup_insert_Some in Hk. destruct Hk as [[_ <-]|[Hk2 Hk]]; [auto|].
      right. apply lookup_insert_Some in Hk.
      destruct Hk as [[_ <-]|[Hk1 Hk]]; [exact Hlt|].
      destruct (Hother _ _ Hk Hx) as [->|[->|Hold]]; [done | done |].
      apply Z.ltb_lt in Hold. lia.
  - intros held force w3 Hheld Hdel. unfold JobManager.delete in Hdel.
    destruct (Job.is_finished held || force); [|discriminate Hdel].
    injection Hdel as Hw3. rewrite Hheld in Hw3.
    assert (Hrecs3 : records w3 = base.delete (Job.id j2) (records w2))
      by (rewrite <- Hw3; reflexivity).
    rewrite (get_latest_job_newest task w3 (Job.id j1) j1); [reflexivity | | |].
    + rewrite Hrecs3, Hrecs, lookup_delete_ne, lookup_insert_ne by auto.
      apply lookup_insert_eq.
    + exact Hfor1.
    + rewrite Hrecs3, Hrecs. intros k x Hk Hx.
      apply lookup_delete_Some in Hk. destruct Hk as [Hk2 Hk].
      apply lookup_insert_Some in Hk.
      destruct Hk as [[Hk _]|[_ Hk]]; [contradiction|].
      apply lookup_insert_Some in Hk. destruct Hk as [[_ <-]|[Hk1 Hk]]; [auto|].
      right. destruct (Hother _ _ Hk Hx) as [->|[->|Hold]]; [done | done |].
      apply Z.ltb_lt in Hold. exact Hold.
Qed.

Lemma latest_job_follows_creation_witness :
  fst (JobManager.get_latest_job task_a world_12) = Return job_2 ∧
  fst (JobManager.get_latest_job task_a
         (snd (JobManager.delete job_2 false world_12))) = Return job_1.
Proof.
  destruct (latest_job_follows_creation task_a job_1 job_2 empty_world)
    as [Hlatest Hafter].
  - reflexivity.
  - reflexivity.
  - reflexivity.
  - discriminate.
  - intros i job H. simpl in H. rewrite lookup_empty in H. discriminate H.
  - split; [exact Hlatest|]. exact (Hafter job_2 false _ eq_refl eq_refl).
Defined.

(** Two jobs created for a task one after the other by [create], in a world
    whose persisted jobs for that task were created in the past and with
    UUIDs that do not collide: the second is the greater in the job
    ordering; [get_latest_job] returns the record of the second (the second
    job before its callbacks were registered), and once that record is
    deleted it returns the record of the first. *)
Theorem latest_job_after_two_creates
    (task : Task) (callbacks1 callbacks2 : list Callback)
    (w w1 w2 : World) (j1 j2 : Job.t) :
  (∀ i job, records w !! i = Some job → Job.contains job task = true →
            Job.creation job < clock w) →
  NoDup (uuids_to_come w 2) →
  JobManager.create task callbacks1 w = (Return j1, w1) →
  JobManager.create task callbacks2 w1 = (Return j2, w2) →
  Job.lt j1 j2 = true ∧
  (∃ r2, fst (JobManager.get_latest_job task w2) = Return r2 ∧
         records w2 !! Job.id j2 = Some r2 ∧
         Job.on_status_change r2 callbacks2 = j2) ∧
  ∀ (held : Job.t) (force : bool) (w3 : World),
    Job.id held = Job.id j2 →
    JobManager.delete held force w2 = (Return tt, w3) →
    ∃ r1, fst (JobManager.get_latest_job task w3) = Return r1 ∧
          records w3 !! Job.id j1 = Some r1 ∧
          Job.on_status_change r1 callbacks1 = j1.
Proof.
  intros Hpast Hnd Hc1 Hc2.
  pose proof (two_uuids_distinct_ids w Hnd) as Hne.
  rewrite create_unfold in Hc1. injection Hc1 as Hj1 Hw1.
  rewrite create_unfold in Hc2. injection Hc2 as Hj2 Hw2.
  rewrite <- Hw1 in Hj2, Hw2. simpl in Hj2, Hw2. clear Hw1 w1.
  set (f1 := {| Job.id := _; Job.creation := clock w |}) in *.
  set (f2 := {| Job.id := _; Job.creation := clock w + 1 |}) in *.
  assert (Hfor1 : Job.contains f1 task = true)
    by (apply bool_decide_eq_true; reflexivity).
  assert (Hfor2 : Job.contains f2 task = true)
    by (apply bool_decide_eq_true; reflexivity).
  assert (Hid1 : Job.id j1 = Job.id f1) by (rewrite <- Hj1; reflexivity).
  assert (Hid2 : Job.id j2 = Job.id f2) by (rewrite <- Hj2; reflexivity).
  assert (Hne' : Job.id f1 ≠ Job.id f2) by exact Hne.
  split; [|split].
  - rewrite <- Hj1, <- Hj2. unfold Job.lt. simpl. apply Z.ltb_lt. lia.
  - exists f2. rewrite Hid2, <- Hw2. simpl.
    split; [|split; [apply lookup_insert_eq | exact Hj2]].
    rewrite (get_latest_job_newest task _ (Job.id f2) f2); [reflexivity | | |].
    + apply lookup_insert_eq.
    + exact Hfor2.
    + simpl. intros k x Hk Hx.
      apply lookup_insert_Some in Hk. destruct Hk as [[_ <-]|[_ Hk]]; [auto|].
      right. apply lookup_insert_Some in Hk.
      destruct Hk as [[_ <-]|[_ Hk]]; simpl; [lia|].
      specialize (Hpast _ _ Hk Hx). lia.
  - intros held force w3 Hheld Hdel. unfold JobManager.delete in Hdel.
    destruct (Job.is_finished held || force); [|discriminate Hdel].
    injection Hdel as Hw3. rewrite Hheld, Hid2, <- Hw2 in Hw3. simpl in Hw3.
    exists f1. rewrite Hid1, <- Hw3. simpl.
    assert (Hkept : base.delete (Job.id f2)
                      (<[Job.id f2:=f2]> (<[Job.id f1:=f1]> (records w)))
                    !! Job.id f1 = Some f1).
    { rewrite lookup_delete_ne, lookup_insert_ne by auto.
      apply lookup_insert_eq. }
    split; [|split; [exact Hkept | exact Hj1]].
    rewrite (get_latest_job_newest task _ (Job.id f1) f1); [reflexivity | | |].
    + exact Hkept.
    + exact Hfor1.
    + simpl. intros k x Hk Hx.
      apply lookup_delete_Some in Hk. destruct Hk as [Hk2 Hk].
      apply lookup_insert_Some in Hk. destruct Hk as [[Hk _]|[_ Hk]];
        [contradiction|].
      apply lookup_insert_Some in Hk. destruct Hk as [[_ <-]|[_ Hk]]; [auto|].
      right. exact (Hpast _ _ Hk Hx).
Qed.

Lemma latest_job_after_two_creates_witness :
  (∃ r2, fst (JobManager.get_latest_job task_a (snd created_twice)) =
           Return r2 ∧
         Job.id r2 = "JOB_00000000-0000-4002-8000-000000000000") ∧
  (∃ r1, fst (JobManager.get_latest_job task_a
                (snd (JobManager.delete second_completed false
                        (snd created_twice)))) = Return r1 ∧
         Job.id r1 = "JOB_00000000-0000-4001-8000-000000000000").
Proof.
  assert (Hpast : ∀ i job, records empty_world !! i = Some job →
            Job.contains job task_a = true →
            Job.creation job < clock empty_world).
  { intros i job H. simpl in H. rewrite lookup_empty in H. discriminate H. }
  assert (Hnd : NoDup (uuids_to_come empty_world 2))
    by (vm_compute; compute_done).
  destruct (latest_job_after_two_creates task_a [Handle "first"]
              [Handle "second"] empty_world _ _ _ _ Hpast Hnd
              (create_unfold task_a [Handle "first"] empty_world)
              (create_unfold task_a [Handle "second"] (snd created_once)))
    as (_ & (r2 & E2 & _ & Hr2) & Hdel).
  split.
  - exists r2. split; [exact E2 | exact (f_equal Job.id Hr2)].
  - destruct (Hdel second_completed false _ eq_refl eq_refl)
      as (r1 & E1 & _ & Hr1).
    exists r1. split; [exact E1 | exact (f_equal Job.id Hr1)].
Defined.

(** ** Further properties of [get_latest_job] *)

(** [get_latest_job] raises exactly when no persisted job is for the task,
    and then it is [ValueError]; whatever the outcome it logs nothing and
    leaves the records as they are, its only repository call being
    [load_all]. *)
Theorem get_latest_job_raises_iff (task : Task) (w : World) :
  (fst (JobManager.get_latest_job task w) = Raise ValueError ↔
   ∀ i job, records w !! i = Some job → Job.contains job task = false) ∧
  (∀ e, fst (JobManager.get_latest_job task w) = Raise e →
        e = ValueError) ∧
  snd (JobManager.get_latest_job task w) =
    with_records (fun m => m) CallLoadAll w.
Proof.
  rewrite get_latest_job_unfold.
  destruct (List.filter _ _) as [|first rest] eqn:E; simpl.
  - split; [|split; [intros e H; injection H as <-; reflexivity|reflexivity]].
    split; [|reflexivity]. intros _ i job Hi.
    destruct (Job.contains job task) eqn:Hc; [|reflexivity].
    assert (Hin : job ∈ List.filter (fun job => Job.contains job task)
                    ((map_to_list (records w)).*2))
      by (apply candidate_iff; eauto).
    rewrite E in Hin. apply elem_of_nil in Hin. destruct Hin.
  - split; [|split; [intros e H; discriminate H|reflexivity]].
    split; [intros H; discriminate H|]. intros Hnone.
    assert (Hin : first ∈ List.filter (fun job => Job.contains job task)
                    ((map_to_list (records w)).*2))
      by (rewrite E; apply list_elem_of_here).
    apply candidate_iff in Hin. destruct Hin as [[i Hi] Hc].
    rewrite (Hnone _ _ Hi) in Hc. discriminate Hc.
Qed.

Lemma max_from_stays (maxitem : Job.t) (items : list Job.t) :
  (∀ y, y ∈ items → Job.lt maxitem y = false) →
  max_from maxitem items = maxitem.
Proof.
  induction items as [|item rest IH]; intros H; [reflexivity|]. simpl.
  rewrite (H item) by apply list_elem_of_here.
  apply IH. intros y Hy. apply H. apply elem_of_cons. right. exact Hy.
Qed.

Lemma max_from_reaches (x maxitem : Job.t) (older later : list Job.t) :
  Job.lt maxitem x = true →
  (∀ y, y ∈ older → Job.lt y x = true) →
  (∀ y, y ∈ later → Job.lt x y = false) →
  max_from maxitem (older ++ x :: later) = x.
Proof.
  revert maxitem. induction older as [|item rest IH];
    intros maxitem Hm Holder Hlater; simpl.
  - rewrite Hm. apply max_from_stays. exact Hlater.
  - apply IH; [|intros y Hy; apply Holder, elem_of_cons; right; exact Hy
               |exact Hlater].
    destruct (Job.lt maxitem item); [|exact Hm].
    apply Holder, list_elem_of_here.
Qed.

(** When several jobs of the task share the greatest creation value,
    [get_latest_job] returns the one that [get_all] lists first: a job is
    returned when the task's jobs listed before it are strictly older and
    those listed after it are not newer. *)
Theorem get_latest_job_first_of_newest
    (task : Task) (w : World) (before after : list Job.t) (x : Job.t) :
  fst (JobManager.get_all w) = Return (before ++ x :: after) →
  Job.contains x task = true →
  (∀ y, y ∈ before → Job.contains y task = true → Job.lt y x = true) →
  (∀ y, y ∈ after → Job.contains y task = true → Job.lt x y = false) →
  fst (JobManager.get_latest_job task w) = Return x.
Proof.
  intros Hall Hx Hbefore Hafter. rewrite get_latest_job_unfold.
  unfold JobManager.get_all, JobRepository.load_all in Hall. simpl in Hall.
  injection Hall as ->.
  rewrite List.filter_app. simpl. rewrite Hx.
  set (f := fun job => Job.contains job task).
  assert (Holder : ∀ y, y ∈ List.filter f before → Job.lt y x = true).
  { intros y Hy. apply list_elem_of_In, List.filter_In in Hy.
    destruct Hy as [Hy Hc].
    apply Hbefore; [apply list_elem_of_In, Hy | exact Hc]. }
  assert (Hlater : ∀ y, y ∈ List.filter f after → Job.lt x y = false).
  { intros y Hy. apply list_elem_of_In, List.filter_In in Hy.
    destruct Hy as [Hy Hc].
    apply Hafter; [apply list_elem_of_In, Hy | exact Hc]. }
  destruct (List.filter f before) as [|first rest] eqn:E; simpl.
  - unfold ret. simpl. f_equal. apply max_from_stays. exact Hlater.
  - unfold ret. simpl. f_equal. apply max_from_reaches.
    + apply Holder, list_elem_of_here.
    + intros y Hy. apply Holder, elem_of_cons. right. exact Hy.
    + exact Hlater.
Qed.

Lemma get_latest_job_first_of_newest_witness :
  Job.creation job_3 = Job.creation job_2 ∧
  fst (JobManager.get_all world_123) = Return [job_3; job_1; job_2] ∧
  fst (JobManager.get_latest_job task_a world_123) = Return job_3.
Proof.
  split; [reflexivity|]. split; [reflexivity|].
  apply (get_latest_job_first_of_newest task_a world_123 [] [job_1; job_2]).
  - reflexivity.
  - reflexivity.
  - intros y Hy. apply elem_of_nil in Hy. destruct Hy.
  - intros y Hy _. apply elem_of_cons in Hy. destruct Hy as [->|Hy];
      [reflexivity|].
    apply list_elem_of_singleton in Hy. subst y. reflexivity.
Defined.

(** ** Reading after writing and deleting *)

Lemma get_outcome (job_id : JobId) (w : World) :
  fst (JobManager.get job_id w) =
  match records w !! job_id with
  | Some job => Return job
  | None => Raise (NonExistingJob job_id)
  end.
Proof.
  unfold JobManager.get, try_except, JobRepository.load.
  destruct (records w !! job_id); reflexivity.
Qed.

Lemma run_snd_cons (c : Call) (cs : list Call) (w : World) :
  snd (run (c :: cs) w) = snd (run cs (snd (run_call c w))).
Proof.
  simpl. destruct (run_call c w) as [created w'].
  simpl. destruct (run cs w') as [later w'']. reflexivity.
Qed.

(** A delete that is allowed (the job is finished, or [force] is given)
    returns normally and logs nothing; afterwards [get] of the job's
    identity raises [NonExistingJob], and [get] of any other identity gives
    what it gave before. *)
Theorem deleted_job_is_gone (job : Job.t) (force : bool) (w : World) :
  Job.is_finished job || force = true →
  fst (JobManager.delete job force w) = Return tt ∧
  fst (JobManager.get (Job.id job) (snd (JobManager.delete job force w))) =
    Raise (NonExistingJob (Job.id job)) ∧
  (∀ i, i ≠ Job.id job →
        fst (JobManager.get i (snd (JobManager.delete job force w))) =
        fst (JobManager.get i w)) ∧
  log (snd (JobManager.delete job force w)) = log w.
Proof.
  intros Hok. unfold JobManager.delete. rewrite Hok.
  split; [reflexivity|]. split; [|split; [|reflexivity]].
  - rewrite get_outcome. simpl. rewrite lookup_delete_eq. reflexivity.
  - intros i Hi. rewrite !get_outcome. simpl.
    rewrite lookup_delete_ne by auto. reflexivity.
Qed.

Lemma deleted_job_is_gone_witness :
  fst (JobManager.get "JOB_2" world_12) = Return job_2 ∧
  fst (JobManager.get "JOB_2"
         (snd (JobManager.delete job_2 false world_12))) =
    Raise (NonExistingJob "JOB_2").
Proof.
  split; [reflexivity|].
  exact (proj1 (proj2 (deleted_job_is_gone job_2 false world_12 eq_refl))).
Defined.

(** Last write wins: after the jobs of a list are saved one after the
    other, [get] of an identity returns the last job of the list that has
    this identity, and what it gave before when the list has none. *)
Theorem last_set_wins (jobs : list Job.t) (job_id : JobId) (w : World) :
  fst (JobManager.get job_id (snd (run (Set_ <$> jobs) w))) =
  match last (List.filter (λ job, bool_decide (Job.id job = job_id)) jobs) with
  | Some job => Return job
  | None => fst (JobManager.get job_id w)
  end.
Proof.
  revert w. induction jobs as [|job jobs IH]; intros w; [reflexivity|].
  rewrite fmap_cons, run_snd_cons, IH. simpl run_call. simpl List.filter.
  case_bool_decide as Hid.
  - rewrite last_cons.
    destruct (last (List.filter _ jobs)); [reflexivity|].
    rewrite get_outcome. simpl. rewrite <- Hid, lookup_insert_eq. reflexivity.
  - destruct (last (List.filter _ jobs)); [reflexivity|].
    rewrite !get_outcome. simpl. rewrite lookup_insert_ne by exact Hid.
    reflexivity.
Qed.

(** ** What a sequence of calls keeps *)

Lemma run_call_query (c : Call) (w : World) :
  is_query c = true →
  fst (run_call c w) = [] ∧
  records (snd (run_call c w)) = records w ∧
  clock (snd (run_call c w)) = clock w ∧
  drawn (snd (run_call c w)) = drawn w.
Proof.
  destruct c as [task callbacks|job|job_id| |job force| |task];
    intros H; try discriminate H; simpl.
  - unfold JobManager.get, try_except, JobRepository.load.
    destruct (records w !! job_id); repeat split.
  - repeat split.
  - rewrite get_latest_job_unfold.
    destruct (List.filter _ _); repeat split.
Qed.

(** Queries, failing ones included, change nothing: after any sequence of
    [get], [get_all] and [get_latest_job] calls the records are the same,
    no job was created, and the creation clock and the random source are
    where they were. *)
Theorem queries_change_nothing (cs : list Call) (w : World) :
  forallb is_query cs = true →
  fst (run cs w) = [] ∧
  records (snd (run cs w)) = records w ∧
  clock (snd (run cs w)) = clock w ∧
  drawn (snd (run cs w)) = drawn w.
Proof.
  revert w. induction cs as [|c cs IH]; intros w H; [repeat split|].
  simpl in H. apply andb_true_iff in H. destruct H as [Hc Hcs].
  destruct (run_call_query c w Hc) as (Hnone & Hrec & Hclock & Hdrawn).
  destruct (IH (snd (run_call c w)) Hcs)
    as (Hnone' & Hrec' & Hclock' & Hdrawn').
  rewrite run_cons, run_snd_cons, Hnone, Hnone', Hrec', Hclock', Hdrawn'.
  repeat split; assumption.
Qed.

Lemma queries_change_nothing_witness :
  fst (JobManager.get "JOB_9" world_12) = Raise (NonExistingJob "JOB_9") ∧
  fst (JobManager.get_latest_job (mkTask "b") world_12) = Raise ValueError ∧
  records (snd (run [Get "JOB_9"; GetLatestJob (mkTask "b"); GetAll;
                     Get "JOB_1"] world_12)) = records world_12.
Proof.
  split; [reflexivity|]. split; [reflexivity|].
  exact (proj1 (proj2 (queries_change_nothing
    [Get "JOB_9"; GetLatestJob (mkTask "b"); GetAll; Get "JOB_1"]
    world_12 eq_refl))).
Defined.

Lemma run_call_log (c : Call) (w : World) :
  ∃ added,
    log (snd (run_call c w)) = log w ++ added ∧
    (added = [] ∨
     (∃ job_id, c = Get job_id ∧ added = [missing_record job_id]) ∨
     (∃ job, c = Delete job false ∧ Job.is_finished job = false ∧
             added = [refused_record job])).
Proof.
  destruct c as [task callbacks|job|job_id| |job force| |task]; simpl.
  - exists []. rewrite app_nil_r. auto.
  - exists []. rewrite app_nil_r. auto.
  - unfold JobManager.get, try_except, JobRepository.load.
    destruct (records w !! job_id); simpl.
    + exists []. rewrite app_nil_r. auto.
    + exists [missing_record job_id]. split; [reflexivity|]. right. left.
      eauto.
  - exists []. rewrite app_nil_r. auto.
  - unfold JobManager.delete.
    destruct (Job.is_finished job) eqn:Hfin; simpl.
    + exists []. rewrite app_nil_r. auto.
    + destruct force; simpl.
      * exists []. rewrite app_nil_r. auto.
      * exists [refused_record job]. split; [reflexivity|]. right. right.
        eauto.
  - exists []. rewrite app_nil_r. auto.
  - rewrite get_latest_job_unfold. destruct (List.filter _ _); simpl;
      exists []; rewrite app_nil_r; auto.
Qed.

(** The log only grows, and the manager logs nothing but its two failures:
    over any sequence of calls, every record added is the error of a [get]
    of the sequence or the warning of a [delete] of the sequence, called
    without [force] on an unfinished job; at most one record is added per
    call.  In particular the [ValueError] of [get_latest_job] is not
    logged. *)
Theorem manager_logs_only_its_failures (cs : list Call) (w : World) :
  ∃ added,
    log (snd (run cs w)) = log w ++ added ∧
    (length added <= length cs)%nat ∧
    Forall (λ r,
      (∃ job_id, Get job_id ∈ cs ∧ r = missing_record job_id) ∨
      (∃ job, Delete job false ∈ cs ∧ Job.is_finished job = false ∧
              r = refused_record job)) added.
Proof.
  revert w. induction cs as [|c cs IH]; intros w.
  - exists []. simpl. rewrite app_nil_r. repeat split; [lia | constructor].
  - destruct (run_call_log c w) as (first & Hfirst & Hwhat).
    destruct (IH (snd (run_call c w))) as (rest & Hrest & Hlen & Hall).
    exists (first ++ rest).
    rewrite run_snd_cons, Hrest, Hfirst, app_assoc.
    split; [reflexivity|]. split.
    + rewrite length_app. simpl.
      destruct Hwhat as [->|[(i & _ & ->)|(j & _ & _ & ->)]]; simpl; lia.
    + apply Forall_app. split.
      * destruct Hwhat as [->|[(i & -> & ->)|(j & -> & Hfin & ->)]].
        -- constructor.
        -- constructor; [|constructor]. left. exists i.
           split; [apply list_elem_of_here | reflexivity].
        -- constructor; [|constructor]. right. exists j.
           split; [apply list_elem_of_here | auto].
      * eapply Forall_impl; [exact Hall|]. simpl.
        intros r [(i & Hi & ->)|(j & Hj & Hfin & ->)].
        -- left. exists i. split; [apply elem_of_cons; auto | reflexivity].
        -- right. exists j. split; [apply elem_of_cons; auto | auto].
Qed.

Lemma run_call_keyed_by_id (c : Call) (w : World) :
  keyed_by_id w → keyed_by_id (snd (run_call c w)).
Proof.
  unfold keyed_by_id.
  destruct c as [task callbacks|job|job_id| |job force| |task];
    intros Hw i x; simpl.
  - intros H. apply lookup_insert_Some in H.
    destruct H as [[<- <-]|[_ H]]; [reflexivity | eauto].
  - intros H. apply lookup_insert_Some in H.
    destruct H as [[<- <-]|[_ H]]; [reflexivity | eauto].
  - unfold JobManager.get, try_except, JobRepository.load.
    destruct (records w !! job_id); simpl; eauto.
  - eauto.
  - unfold JobManager.delete.
    destruct (Job.is_finished job || force); simpl; [|eauto].
    intros H. apply lookup_delete_Some in H. destruct H as [_ H]. eauto.
  - intros H. rewrite lookup_empty in H. discriminate H.
  - rewrite get_latest_job_unfold. destruct (List.filter _ _); simpl; eauto.
Qed.

Lemma ids_of_pairs (l : list (string * Job.t)) :
  (∀ i job, (i, job) ∈ l → Job.id job = i) → Job.id <$> l.*2 = l.*1.
Proof.
  induction l as [|[i job] l IH]; intros H; [reflexivity|].
  rewrite !fmap_cons. simpl. f_equal.
  - apply H, list_elem_of_here.
  - apply IH. intros k x Hk. apply H, elem_of_cons. right. exact Hk.
Qed.

(** Records stay filed under the identity of their job: when this holds of
    a world it holds after any sequence of calls; then [get] returns only a
    job that has the identity asked for, and [get_all] lists jobs with
    pairwise distinct identities. *)
Theorem records_stay_keyed_by_id (cs : list Call) (w : World) :
  keyed_by_id w →
  keyed_by_id (snd (run cs w)) ∧
  (∀ job_id job,
     fst (JobManager.get job_id (snd (run cs w))) = Return job →
     Job.id job = job_id) ∧
  (∀ jobs,
     fst (JobManager.get_all (snd (run cs w))) = Return jobs →
     NoDup (Job.id <$> jobs)).
Proof.
  intros Hw.
  assert (Hkeyed : keyed_by_id (snd (run cs w))).
  { revert w Hw. induction cs as [|c cs IH]; intros w Hw; [exact Hw|].
    rewrite run_snd_cons. apply IH, run_call_keyed_by_id, Hw. }
  split; [exact Hkeyed|]. split.
  - intros job_id job H. rewrite get_outcome in H.
    destruct (records (snd (run cs w)) !! job_id) as [x|] eqn:E;
      [|discriminate H].
    injection H as <-. exact (Hkeyed _ _ E).
  - intros jobs H.
    unfold JobManager.get_all, JobRepository.load_all in H. simpl in H.
    injection H as <-. rewrite ids_of_pairs.
    + apply NoDup_fst_map_to_list.
    + intros i job Hin. apply elem_of_map_to_list in Hin.
      exact (Hkeyed _ _ Hin).
Qed.

Lemma records_stay_keyed_by_id_witness :
  keyed_by_id empty_world ∧
  keyed_by_id
    (snd (run [Create task_a []; Set_ job_1; Set_ job_1_failed;
               Delete job_2 true; Create task_a [Handle "notify"]]
            empty_world)).
Proof.
  assert (H : keyed_by_id empty_world).
  { intros i job Hi. simpl in Hi. rewrite lookup_empty in Hi.
    discriminate Hi. }
  split; [exact H|].
  exact (proj1 (records_stay_keyed_by_id _ empty_world H)).
Defined.

(** ** The form of the identities *)

Lemma version_nibble (r : Z) :
  (uuid.set_version4 r / 2 ^ 76) mod 2 ^ 4 = 4.
Proof.
  rewrite <- Z.shiftr_div_pow2, <- Z.land_ones by lia.
  unfold uuid.set_version4.
  rewrite Z.shiftr_lor, Z.land_lor_distr_l, Z.shiftr_land.
  rewrite <- (Z.land_assoc _ _ (Z.ones 4)).
  change (Z.land (Z.shiftr (Z.lnot (Z.shiftl 0xf000 64)) 76) (Z.ones 4))
    with 0.
  rewrite Z.land_0_r. reflexivity.
Qed.

Lemma variant_bits (r : Z) :
  (uuid.set_version4 r / 2 ^ 62) mod 2 ^ 2 = 2.
Proof.
  rewrite <- Z.shiftr_div_pow2, <- Z.land_ones by lia.
  unfold uuid.set_version4.
  rewrite Z.shiftr_lor, Z.land_lor_distr_l, Z.shiftr_land.
  rewrite <- (Z.land_assoc _ _ (Z.ones 2)).
  change (Z.land (Z.shiftr (Z.lnot (Z.shiftl 0xf000 64)) 62) (Z.ones 2))
    with (Z.ones 2).
  rewrite Z.shiftr_lor, Z.land_lor_distr_l, Z.shiftr_land.
  rewrite <- (Z.land_assoc _ _ (Z.ones 2)).
  change (Z.land (Z.shiftr (Z.lnot (Z.shiftl 0xc000 48)) 62) (Z.ones 2))
    with 0.
  rewrite Z.land_0_r. reflexivity.
Qed.

Lemma variant_nibble (r : Z) :
  8 <= (uuid.set_version4 r / 2 ^ 60) mod 2 ^ 4 < 12.
Proof.
  pose proof (variant_bits r) as H.
  set (u := uuid.set_version4 r) in *.
  change (2 ^ 4) with (2 ^ 2 * 2 ^ 2).
  rewrite Z.rem_mul_r by lia.
  rewrite Z.div_div by lia.
  change (2 ^ 60 * 2 ^ 2) with (2 ^ 62). rewrite H.
  pose proof (Z.mod_pos_bound (u / 2 ^ 60) (2 ^ 2)). lia.
Qed.

Lemma hex_pad_lookup (k i : nat) (n : Z) :
  (i < k)%nat →
  uuid.hex_pad k n !! i =
  Some (uuid.hex_digit ((n / 16 ^ Z.of_nat (k - 1 - i)) mod 16)).
Proof.
  revert n. induction k as [|k IH]; intros n Hi; [lia|]. simpl uuid.hex_pad.
  destruct (decide (i = k)) as [->|Hne].
  - rewrite lookup_app_r by (rewrite hex_pad_length; lia).
    rewrite hex_pad_length.
    replace (k - k)%nat with 0%nat by lia.
    replace (S k - 1 - k)%nat with 0%nat by lia.
    simpl. rewrite Z.div_1_r. reflexivity.
  - rewrite lookup_app_l by (rewrite hex_pad_length; lia).
    rewrite IH by lia. f_equal. f_equal.
    rewrite Z.div_div by lia.
    replace (S k - 1 - i)%nat with (S (k - 1 - i)) by lia.
    rewrite Nat2Z.inj_succ, Z.pow_succ_r by lia. reflexivity.
Qed.

Lemma hex_digit_in_alphabet (d : Z) :
  0 <= d < 16 → uuid.hex_digit d ∈ uuid.hex_alphabet.
Proof.
  intros Hd. unfold uuid.hex_digit. apply list_elem_of_In, nth_In.
  change (length uuid.hex_alphabet) with 16%nat. lia.
Qed.

Lemma hex_pad_digits (k : nat) (n : Z) (c : ascii) :
  c ∈ uuid.hex_pad k n → c ∈ uuid.hex_alphabet.
Proof.
  revert n. induction k as [|k IH]; intros n H; simpl in H.
  - apply elem_of_nil in H. destruct H.
  - apply elem_of_app in H. destruct H as [H|H]; [exact (IH _ H)|].
    apply list_elem_of_singleton in H. subst c.
    apply hex_digit_in_alphabet, Z.mod_pos_bound. lia.
Qed.

Lemma hex_digit_variant (d : Z) :
  8 <= d < 12 → uuid.hex_digit d ∈ ["8"; "9"; "a"; "b"]%char.
Proof.
  intros Hd. assert (H : d = 8 ∨ d = 9 ∨ d = 10 ∨ d = 11) by lia.
  destruct H as [-> | [-> | [-> | ->]]]; compute_done.
Qed.

(** The identity of a created job has the form
    [JOB_xxxxxxxx-xxxx-4xxx-yxxx-xxxxxxxxxxxx]: forty characters, the prefix
    "JOB_", dashes at the four places of the canonical form of a UUID, the
    version digit 4, a variant digit among 8, 9, a and b, and lower-case
    hexadecimal digits everywhere else. *)
Theorem created_id_format
    (task : Task) (callbacks : list Callback) (w : World) :
  ∃ job w',
    JobManager.create task callbacks w = (Return job, w') ∧
    String.length (Job.id job) = 40%nat ∧
    String.substring 0 4 (Job.id job) = "JOB_" ∧
    (∀ i, i ∈ [12; 17; 22; 27]%nat →
          String.get i (Job.id job) = Some "-"%char) ∧
    String.get 18 (Job.id job) = Some "4"%char ∧
    (∃ c, String.get 23 (Job.id job) = Some c ∧
          c ∈ ["8"; "9"; "a"; "b"]%char) ∧
    (∀ i c, (4 <= i)%nat → i ∉ [12; 17; 22; 27]%nat →
            String.get i (Job.id job) = Some c → c ∈ uuid.hex_alphabet).
Proof.
  eexists _, _. split; [apply create_unfold|]. simpl Job.id.
  set (u := uuid.set_version4 _). unfold uuid.str.
  pose proof (hex_pad_length 32 u) as Hlen.
  pose proof (hex_pad_digits 32 u) as Hdigits.
  assert (Hversion : uuid.hex_pad 32 u !! 12%nat = Some "4"%char).
  { rewrite hex_pad_lookup by lia.
    change (16 ^ Z.of_nat (32 - 1 - 12)) with (2 ^ 76).
    change 16 with (2 ^ 4). subst u. rewrite version_nibble. reflexivity. }
  assert (Hvariant : ∃ c, uuid.hex_pad 32 u !! 16%nat = Some c ∧
                          c ∈ ["8"; "9"; "a"; "b"]%char).
  { rewrite hex_pad_lookup by lia. eexists. split; [reflexivity|].
    change (16 ^ Z.of_nat (32 - 1 - 16)) with (2 ^ 60).
    change 16 with (2 ^ 4). apply hex_digit_variant, variant_nibble. }
  destruct Hvariant as (c & Hc & Hcin).
  generalize dependent (uuid.hex_pad 32 u).
  intros hex Hlen Hdigits Hversion Hc.
  spell_32 hex Hlen. simpl in Hversion, Hc.
  injection Hversion as ->. injection Hc as ->.
  split; [reflexivity|]. split; [reflexivity|]. split.
  { intros i Hi. repeat (apply elem_of_cons in Hi; destruct Hi as [->|Hi];
      [reflexivity|]). apply elem_of_nil in Hi. destruct Hi. }
  split; [reflexivity|]. split; [exists c; split; [reflexivity|exact Hcin]|].
  intros i x Hi Hdash Hget.
  do 4 (destruct i as [|i]; [lia|]).
  do 36 (destruct i as [|i];
    [first [ exfalso; apply Hdash; compute_done
           | vm_compute in Hget; injection Hget as <-; apply Hdigits;
             repeat first [apply list_elem_of_here
                          |apply list_elem_of_further] ]|]).
  vm_compute in Hget. discriminate Hget.
Qed.

(** ** What [get_all] lists after a creation and after a deletion *)

(** When no record has the identity drawn for the new job, [create] adds
    exactly one job to what [get_all] lists: the new job as it was saved,
    that is before its callbacks were registered. *)
Theorem create_adds_one_job
    (task : Task) (callbacks : list Callback) (w w' : World) (job : Job.t) :
  JobManager.create task callbacks w = (Return job, w') →
  records w !! Job.id job = None →
  ∃ saved before after,
    Job.on_status_change saved callbacks = job ∧
    Job.subscribers saved = [] ∧
    fst (JobManager.get_all w) = Return before ∧
    fst (JobManager.get_all w') = Return after ∧
    after ≡ₚ saved :: before.
Proof.
  intros Hcreate Hnew. rewrite create_unfold in Hcreate.
  injection Hcreate as Hjob Hw'. rewrite <- Hjob in Hnew. simpl in Hnew.
  eexists _, _, _. split; [exact Hjob|]. split; [reflexivity|].
  split; [reflexivity|]. rewrite <- Hw'.
  unfold JobManager.get_all, JobRepository.load_all. simpl.
  split; [reflexivity|].
  rewrite (map_to_list_insert _ _ _ Hnew). reflexivity.
Qed.

Lemma create_adds_one_job_witness :
  records world_12 !! "JOB_00000000-0000-4001-8000-000000000000" = None ∧
  ∃ saved before after,
    fst (JobManager.get_all world_12) = Return before ∧
    fst (JobManager.get_all (snd (JobManager.create task_a [] world_12))) =
      Return after ∧
    after ≡ₚ saved :: before.
Proof.
  assert (Hnew : records world_12 !!
                   "JOB_00000000-0000-4001-8000-000000000000" = None)
    by (vm_compute; reflexivity).
  split; [exact Hnew|].
  destruct (create_adds_one_job task_a [] world_12 _ _
              (create_unfold task_a [] world_12) Hnew)
    as (saved & before & after & _ & _ & Hbefore & Hafter & Hperm).
  exists saved, before, after.
  split; [exact Hbefore|]. split; [exact Hafter | exact Hperm].
Defined.

(** A delete that is allowed removes exactly one job from what [get_all]
    lists, the record kept under the identity of the job it was given. *)
Theorem delete_removes_one_job
    (job persisted : Job.t) (force : bool) (w : World) :
  records w !! Job.id job = Some persisted →
  Job.is_finished job || force = true →
  ∃ before after,
    fst (JobManager.get_all w) = Return before ∧
    fst (JobManager.get_all (snd (JobManager.delete job force w))) =
      Return after ∧
    before ≡ₚ persisted :: after.
Proof.
  intros Hrec Hok. unfold JobManager.delete. rewrite Hok.
  eexists _, _. split; [reflexivity|].
  unfold JobManager.get_all, JobRepository.load_all. simpl.
  split; [reflexivity|].
  rewrite <- (map_to_list_delete _ _ _ Hrec). reflexivity.
Qed.

Lemma delete_removes_one_job_witness :
  records world_12 !! "JOB_1" = Some job_1 ∧
  ∃ before after,
    fst (JobManager.get_all world_12) = Return before ∧
    fst (JobManager.get_all
           (snd (JobManager.delete job_1_failed false world_12))) =
      Return after ∧
    before ≡ₚ job_1 :: after.
Proof.
  assert (Hrec : records world_12 !! Job.id job_1_failed = Some job_1)
    by (vm_compute; reflexivity).
  split; [exact Hrec|].
  exact (delete_removes_one_job job_1_failed job_1 false world_12
           Hrec eq_refl).
Defined.
